(** * hdfs/conf.go: Hadoop configuration loading and namenode resolution

    A shallow embedding of [conf.go] (package [hdfs]).

    - Go [string]s are byte strings: [string] (a list of 8-bit [ascii]).
    - [HadoopConf] (a Go [map[string]string]) is a [gmap string string];
      the local [nns] ([map[string]bool] used as a set) is a [gset string].
    - A [range] over a map visits every entry once, in an order Go leaves
      unspecified: the loops are written over the list of entries, and are
      shown not to depend on the order of that list.
    - The package variable [defaultFS] and the map the receiver refers to
      live in an explicit [state], threaded through a small state monad. *)

From Stdlib Require Import String Ascii OrdersEx.
From stdpp Require Import base option list sorting gmap sets strings.

Local Open Scope string_scope.

(** * Part I: the program *)

(** ** The functions of Go's [strings], [fmt] and [sort] that the file calls *)

Module Go_strings.

(** [func HasPrefix(s, prefix string) bool {
       return len(s) >= len(prefix) && s[0:len(prefix)] == prefix }] *)
Definition HasPrefix (s prefix : string) : bool :=
  (String.length prefix <=? String.length s)%nat
  && String.eqb (String.substring 0 (String.length prefix) s) prefix.

(** [func TrimPrefix(s, prefix string) string {
       if HasPrefix(s, prefix) { return s[len(prefix):] }
       return s }] *)
Definition TrimPrefix (s prefix : string) : string :=
  if HasPrefix s prefix
  then String.substring (String.length prefix)
                        (String.length s - String.length prefix) s
  else s.

End Go_strings.

(** [fmt.Sprintf("dfs.namenode.rpc-address.%s.", name)]: the verb [%s]
    splices the string in unchanged. *)
Definition Sprintf_rpc_address (name : string) : string :=
  "dfs.namenode.rpc-address." ++ name ++ ".".

Module Go_sort.

(** Go's [<] on strings: byte-wise lexicographic order. *)
Definition less (a b : string) : bool :=
  match String_as_OT.compare a b with
  | Lt => true
  | _ => false
  end.

(** [sort.Strings] sorts a slice in increasing order. It is modelled by the
    insertion sort Go itself runs on short slices: each element in turn is
    moved left past the elements it is less than. [Strings_unique] below
    shows that on a slice without duplicates every sorting procedure
    gives this same result. *)
Fixpoint insert (x : string) (sorted : list string) : list string :=
  match sorted with
  | [] => [x]
  | y :: rest => if less x y then x :: y :: rest else y :: insert x rest
  end.

Definition Strings (a : list string) : list string :=
  foldl (λ sorted x, insert x sorted) [] a.

Abbreviation lt := String_as_OT.lt.

End Go_sort.

(** ** Data model *)

(** [type Property struct { Name string; Value string }] *)
Record Property := mkProperty { Name : string; Value : string }.

(** [type propertyList struct { Property []Property }] *)
Record propertyList := mkPropertyList { pl_Property : list Property }.

(** [type HadoopConf map[string]string] *)
Abbreviation HadoopConf := (gmap string string).

(** [errUnresolvedDefaultFS] and [errUnresolvedNamenode], the two error
    values of the package, with the text [errors.New] was given. *)
Inductive error := errUnresolvedDefaultFS | errUnresolvedNamenode.

Definition Error (e : error) : string :=
  match e with
  | errUnresolvedDefaultFS => "no defaultFS in configuration"
  | errUnresolvedNamenode => "no namenode address in configuration"
  end.

(** ** State

    A Go map is a reference: the callee of [conf.Namenodes] holds the very
    map its caller holds and could write to it. The state therefore has the
    contents of that map next to the package variable [defaultFS]. *)
Record state := mkState {
  conf_map : HadoopConf;   (* the map the receiver [conf] refers to *)
  defaultFS : string       (* [var defaultFS string] *)
}.

(** The state of a fresh process: [defaultFS] has its zero value. *)
Definition initial_state (conf : HadoopConf) : state :=
  {| conf_map := conf; defaultFS := "" |}.

Definition M (A : Type) : Type := state → A * state.

#[global] Instance M_ret : MRet M := λ A a st, (a, st).
#[global] Instance M_bind : MBind M := λ A B f m st,
  let '(a, st') := m st in f a st'.

(** [range conf]: the entries of the receiver's map. *)
Definition range_conf : M (list (string * string)) :=
  λ st, (map_to_list (conf_map st), st).

(** [defaultFS = v] *)
Definition set_defaultFS (v : string) : M () :=
  λ st, ((), {| conf_map := conf_map st; defaultFS := v |}).

(** ** [LoadHadoopConf] *)

Section LoadHadoopConf.
(** What the function reads from outside the package. *)
Variable Getenv : string → string.
  (* [os.Getenv]: the value, [""] when unset *)
Variable Join : string → string → string.
  (* [filepath.Join] of two elements *)
Variable ReadFile : string → option string.
  (* [ioutil.ReadFile]: the contents, [None] when [err != nil] *)
Variable Unmarshal : string → option propertyList.
  (* [xml.Unmarshal(f, &pList)] on a fresh [propertyList{}]:
     the decoded list, [None] when [err != nil] *)

(** Lines 41-46: the directory the files are read from. *)
Definition conf_dir (path : string) : string :=
  if String.eqb path "" then
    let path := Getenv "HADOOP_CONF_DIR" in
    if String.eqb path "" then Join (Getenv "HADOOP_HOME") "conf"
    else path
  else path.

(** Lines 61-63: [hadoopConf[prop.Name] = prop.Value] for each property. *)
Definition store_properties (hadoopConf : HadoopConf) (pList : propertyList)
  : HadoopConf :=
  foldl (λ hadoopConf prop, <[Name prop := Value prop]> hadoopConf)
        hadoopConf (pl_Property pList).

(** Lines 50-63: the body of the loop over the two file names; each
    [continue] leaves [hadoopConf] as it is. *)
Definition load_file (path : string) (hadoopConf : HadoopConf) (file : string)
  : HadoopConf :=
  match ReadFile (Join path file) with
  | None => hadoopConf
  | Some f =>
      match Unmarshal f with
      | None => hadoopConf
      | Some pList => store_properties hadoopConf pList
      end
  end.

Definition LoadHadoopConf (path : string) : HadoopConf :=
  let path := conf_dir path in
  foldl (load_file path) ∅ ["core-site.xml"; "hdfs-site.xml"].

End LoadHadoopConf.

(** ** [Namenodes] *)

(** Lines 76-80: the scan for [fs.defaultFS]. *)
Definition find_fs_name (entries : list (string * string))
    (defaultFsName : string) : string :=
  foldl (λ defaultFsName '(key, value),
           if String.eqb key "fs.defaultFS"
           then Go_strings.TrimPrefix value "hdfs://"
           else defaultFsName)
        defaultFsName entries.

(** Lines 90-95: the scan for the namenode addresses. *)
Definition extract_cluster (entries : list (string * string))
    (defaultFsName : string) (nns : gset string) : gset string :=
  foldl (λ nns '(key, value),
           let k := Sprintf_rpc_address defaultFsName in
           if Go_strings.HasPrefix key k then {[value]} ∪ nns else nns)
        nns entries.

(** Lines 97-107: from the set of addresses to the returned pair. The error
    return comes with a nil slice. *)
Definition sorted_keys (nns : gset string) : list string * option error :=
  if (size nns =? 0)%nat then ([], Some errUnresolvedNamenode)
  else
    let keys := elements nns in
    (Go_sort.Strings keys, None).

Definition Namenodes (givenFS : string) : M (list string * option error) :=
  let nns : gset string := ∅ in
  let defaultFsName := "" in
  (* lines 74-87; [inl]: the early return of line 82 *)
  found ← (if String.eqb givenFS "" then
             entries ← range_conf;
             let defaultFsName := find_fs_name entries defaultFsName in
             if String.eqb defaultFsName "" then
               mret (inl errUnresolvedDefaultFS)
             else
               set_defaultFS defaultFsName;;
               mret (inr defaultFsName)
           else
             set_defaultFS givenFS;;
             mret (inr defaultFsName));
  match found with
  | inl err => mret ([], Some err)
  | inr defaultFsName =>
      entries ← range_conf;
      let nns := extract_cluster entries defaultFsName nns in
      mret (sorted_keys nns)
  end.

(** [func GetDefaultFS() string] *)
Definition GetDefaultFS : M string := λ st, (defaultFS st, st).

(** * Part II: the specification's notions and the examples *)

(** ** The lookup, as the specification words it *)

(** [a] is the value of a key that starts with
    [dfs.namenode.rpc-address.<clusterName>.] *)
Definition rpc_address_of (conf : HadoopConf) (clusterName a : string) : Prop :=
  ∃ suffix : string,
    conf !! (("dfs.namenode.rpc-address." ++ clusterName ++ ".") ++ suffix)
    = Some a.

(** The answer the specification asks for, given the cluster name: the error
    [UnresolvedNamenode] when no key has the prefix, and otherwise the
    addresses under the prefix, each once, in increasing order. *)
Inductive lookup_result (conf : HadoopConf) (clusterName : string)
    : list string * option error → Prop :=
  | lookup_unresolved :
      (∀ a, ¬ rpc_address_of conf clusterName a) →
      lookup_result conf clusterName ([], Some errUnresolvedNamenode)
  | lookup_resolved (keys : list string) :
      keys ≠ [] →
      StronglySorted Go_sort.lt keys →
      (∀ a, a ∈ keys ↔ rpc_address_of conf clusterName a) →
      lookup_result conf clusterName (keys, None).

(** The cluster name a call settles on and stores in [defaultFS]: the
    override when there is one, and else the value of [fs.defaultFS] without
    its [hdfs://], when that is not empty. *)
Inductive determined (conf : HadoopConf) : string → string → Prop :=
  | determined_override (givenFS : string) :
      givenFS ≠ "" → determined conf givenFS givenFS
  | determined_default (v : string) :
      conf !! "fs.defaultFS" = Some v →
      Go_strings.TrimPrefix v "hdfs://" ≠ "" →
      determined conf "" (Go_strings.TrimPrefix v "hdfs://").

(** A file the loop skips: it cannot be read, or it cannot be decoded. *)
Definition unusable (ReadFile : string → option string)
    (Unmarshal : string → option propertyList) (name : string) : Prop :=
  ReadFile name = None ∨ ∃ f, ReadFile name = Some f ∧ Unmarshal f = None.

(** The properties a file contributes: those decoded from it, and none when
    it is skipped. *)
Definition file_properties (ReadFile : string → option string)
    (Unmarshal : string → option propertyList) (name : string)
    : list Property :=
  match ReadFile name with
  | None => []
  | Some f =>
      match Unmarshal f with
      | None => []
      | Some pList => pl_Property pList
      end
  end.

(** A directory for the examples: [core-site.xml] and [hdfs-site.xml] in
    [/etc/hadoop], a [core-site.xml] that is no XML in [/broken], and
    nothing anywhere else. *)
Definition example_Getenv (name : string) : string := "".

Definition example_Join (dir file : string) : string := dir ++ "/" ++ file.

Definition example_core_site : string :=
  "<configuration><property><name>fs.defaultFS</name><value>hdfs://old</value></property><property><name>io.file.buffer.size</name><value>4096</value></property></configuration>".

Definition example_hdfs_site : string :=
  "<configuration><property><name>fs.defaultFS</name><value>hdfs://clusterA</value></property><property><name>dfs.namenode.rpc-address.clusterA.nn1</name><value>host1:8020</value></property></configuration>".

Definition example_ReadFile (name : string) : option string :=
  if String.eqb name "/etc/hadoop/core-site.xml" then Some example_core_site
  else if String.eqb name "/etc/hadoop/hdfs-site.xml" then Some example_hdfs_site
  else if String.eqb name "/broken/core-site.xml" then Some "<configuration"
  else None.

(** An environment with both variables set, and one with [HADOOP_HOME]
    alone. *)
Definition example_Getenv_both (name : string) : string :=
  if String.eqb name "HADOOP_CONF_DIR" then "/etc/hadoop"
  else if String.eqb name "HADOOP_HOME" then "/opt/hadoop"
  else "".

Definition example_Getenv_home (name : string) : string :=
  if String.eqb name "HADOOP_HOME" then "/opt/hadoop" else "".

(** A file system with a [core-site.xml] under [/opt/hadoop/conf], and the
    one of [example_ReadFile] with a third file next to the two. *)
Definition example_ReadFile_home (name : string) : option string :=
  if String.eqb name "/opt/hadoop/conf/core-site.xml"
  then Some example_core_site
  else None.

Definition example_ReadFile_more (name : string) : option string :=
  if String.eqb name "/etc/hadoop/yarn-site.xml" then Some example_hdfs_site
  else example_ReadFile name.

(** [xml.Unmarshal] on the documents of the examples; every other input is
    taken to be undecodable. *)
Definition example_Unmarshal (f : string) : option propertyList :=
  if String.eqb f example_core_site then
    Some (mkPropertyList [mkProperty "fs.defaultFS" "hdfs://old";
                          mkProperty "io.file.buffer.size" "4096"])
  else if String.eqb f example_hdfs_site then
    Some (mkPropertyList
            [mkProperty "fs.defaultFS" "hdfs://clusterA";
             mkProperty "dfs.namenode.rpc-address.clusterA.nn1" "host1:8020"])
  else None.

(** ** Configurations used as examples *)

(** The configuration of the specification's examples. *)
Definition conf_clusterA : HadoopConf :=
  <["fs.defaultFS" := "hdfs://clusterA"]>
  (<["dfs.namenode.rpc-address.clusterA.nn1" := "host1:8020"]>
  (<["dfs.namenode.rpc-address.clusterA.nn2" := "host2:8020"]> ∅)).

(** A default cluster without namenodes and a second cluster with one. *)
Definition conf_clusterB : HadoopConf :=
  <["fs.defaultFS" := "hdfs://clusterA"]>
  (<["dfs.namenode.rpc-address.clusterB.nn1" := "b1:8020"]> ∅).

(** [fs.defaultFS] is only the scheme. *)
Definition conf_scheme_only : HadoopConf :=
  <["fs.defaultFS" := "hdfs://"]>
  (<["dfs.namenode.rpc-address..nn1" := "host1:8020"]> ∅).

(** * Part III: proofs *)

(** ** Facts on the Go library functions *)

Module Go_strings_facts.
Import Go_strings.

Lemma substring_0_app (p t : string) :
  String.substring 0 (String.length p) (p ++ t) = p.
Proof. induction p as [|c p IH]; simpl; [by destruct t | by rewrite IH]. Qed.

Lemma substring_0_all (t : string) :
  String.substring 0 (String.length t) t = t.
Proof. induction t as [|c t IH]; simpl; [done | by rewrite IH]. Qed.

Lemma substring_skip_app (p t : string) :
  String.substring (String.length p) (String.length t) (p ++ t) = t.
Proof. induction p as [|c p IH]; simpl; [apply substring_0_all | done]. Qed.

Lemma length_app (p t : string) :
  String.length (p ++ t) = (String.length p + String.length t)%nat.
Proof. induction p as [|c p IH]; simpl; [done | by rewrite IH]. Qed.

Lemma app_empty_r (p : string) : p ++ "" = p.
Proof.
  induction p as [|c p IH]; [done |].
  change (String c (p ++ "") = String c p). by rewrite IH.
Qed.

Lemma substring_0_split (n : nat) (s : string) :
  (n <= String.length s)%nat →
  ∃ t, s = String.substring 0 n s ++ t.
Proof.
  revert s. induction n as [|n IH]; intros s Hn.
  - exists s. by destruct s.
  - destruct s as [|c s]; simpl in Hn; [lia |].
    destruct (IH s) as [t Ht]; [lia |]. exists t.
    change (String c s = String c (String.substring 0 n s ++ t)). by f_equal.
Qed.

Lemma HasPrefix_app (p t : string) : HasPrefix (p ++ t) p = true.
Proof.
  unfold HasPrefix. rewrite substring_0_app, String.eqb_refl, length_app.
  rewrite andb_true_r. apply Nat.leb_le. lia.
Qed.

(** [HasPrefix] holds exactly of the strings that extend [prefix]. *)
Lemma HasPrefix_spec (s p : string) :
  HasPrefix s p = true ↔ ∃ t, s = p ++ t.
Proof.
  split.
  - unfold HasPrefix. intros [Hlen Heq]%andb_true_iff.
    apply Nat.leb_le in Hlen. apply String.eqb_eq in Heq.
    destruct (substring_0_split _ _ Hlen) as [t Ht].
    exists t. by rewrite Heq in Ht.
  - intros [t ->]. apply HasPrefix_app.
Qed.

Lemma TrimPrefix_app (p t : string) : TrimPrefix (p ++ t) p = t.
Proof.
  unfold TrimPrefix. rewrite HasPrefix_app, length_app.
  replace (String.length p + String.length t - String.length p)%nat
    with (String.length t) by lia.
  apply substring_skip_app.
Qed.

Lemma TrimPrefix_other (s p : string) :
  HasPrefix s p = false → TrimPrefix s p = s.
Proof. unfold TrimPrefix. by intros ->. Qed.

(** The only strings trimmed to the empty string are the empty string and
    the prefix itself. *)
Lemma TrimPrefix_empty (s p : string) :
  TrimPrefix s p = "" ↔ s = "" ∨ s = p.
Proof.
  split.
  - destruct (HasPrefix s p) eqn:Hp.
    + apply HasPrefix_spec in Hp as [t ->]. rewrite TrimPrefix_app.
      intros ->. right. apply app_empty_r.
    + rewrite TrimPrefix_other by done. auto.
  - intros [-> | ->].
    + unfold TrimPrefix. destruct (HasPrefix "" p); [| done].
      by destruct (String.length p).
    + rewrite <-(app_empty_r p) at 1. apply TrimPrefix_app.
Qed.

End Go_strings_facts.

Module Go_sort_facts.
Import Go_sort.

Lemma less_lt (a b : string) : less a b = true ↔ lt a b.
Proof.
  unfold less, String_as_OT.lt.
  destruct (String_as_OT.compare a b); naive_solver.
Qed.

Lemma not_less_lt (a b : string) : less a b = false → a ≠ b → lt b a.
Proof.
  unfold less. intros Hc Hne.
  destruct (String_as_OT.compare_spec a b) as [Heq | Hlt | Hgt]; done.
Qed.

Lemma lt_irrefl (a : string) : ¬ lt a a.
Proof. destruct String_as_OT.lt_strorder as [Hirr _]. apply Hirr. Qed.

Lemma lt_trans (a b c : string) : lt a b → lt b c → lt a c.
Proof. destruct String_as_OT.lt_strorder as [_ Htr]. apply Htr. Qed.

Lemma insert_Permutation (x : string) (l : list string) :
  insert x l ≡ₚ x :: l.
Proof.
  induction l as [|y l IH]; simpl; [done |].
  destruct (less x y); [done |]. rewrite IH. apply Permutation_swap.
Qed.

Lemma insert_sorted (x : string) (l : list string) :
  StronglySorted lt l → x ∉ l → StronglySorted lt (insert x l).
Proof.
  induction 1 as [|y l Hl IH Hy]; intros Hx; simpl.
  - repeat constructor.
  - apply not_elem_of_cons in Hx as [Hxy Hxl].
    destruct (less x y) eqn:Hc.
    + apply less_lt in Hc. constructor; [by constructor |].
      constructor; [done |].
      eapply Forall_impl; [exact Hy |]. intros z Hz. by eapply lt_trans.
    + constructor; [by apply IH |].
      rewrite insert_Permutation. constructor; [| done].
      by apply not_less_lt.
Qed.

Lemma Strings_from_Permutation (acc l : list string) :
  foldl (λ sorted x, insert x sorted) acc l ≡ₚ acc ++ l.
Proof.
  revert acc. induction l as [|x l IH]; intros acc; simpl.
  - by rewrite app_nil_r.
  - rewrite IH, insert_Permutation. apply Permutation_middle.
Qed.

Lemma Strings_from_sorted (acc l : list string) :
  StronglySorted lt acc → NoDup (acc ++ l) →
  StronglySorted lt (foldl (λ sorted x, insert x sorted) acc l).
Proof.
  revert acc. induction l as [|x l IH]; intros acc Hacc Hnd; simpl; [done |].
  apply NoDup_app in Hnd as (Hnd1 & Hdisj & Hnd2).
  apply NoDup_cons in Hnd2 as [Hxl Hnd2].
  apply IH.
  - apply insert_sorted; [done |]. intros Hx. apply (Hdisj x Hx). by left.
  - rewrite insert_Permutation. apply NoDup_cons. split.
    + rewrite elem_of_app. intros [Hx | Hx]; [| done].
      apply (Hdisj x Hx). by left.
    + apply NoDup_app. split_and!; [done | | done].
      intros z Hz Hz'. apply (Hdisj z Hz). by right.
Qed.

Lemma Strings_Permutation (l : list string) : Strings l ≡ₚ l.
Proof. unfold Strings. by rewrite Strings_from_Permutation. Qed.

(** On a slice without duplicates the result is strictly increasing. *)
Lemma Strings_sorted (l : list string) :
  NoDup l → StronglySorted lt (Strings l).
Proof. intros Hnd. apply Strings_from_sorted; [constructor | done]. Qed.

Lemma Strings_elem_of (x : string) (l : list string) : x ∈ Strings l ↔ x ∈ l.
Proof. by rewrite Strings_Permutation. Qed.

Lemma sorted_NoDup (l : list string) : StronglySorted lt l → NoDup l.
Proof.
  induction 1 as [|x l Hl IH Hx]; constructor; [| done].
  intros Hin. rewrite Forall_forall in Hx. by destruct (lt_irrefl x); apply Hx.
Qed.

Lemma sorted_unique (l1 l2 : list string) :
  StronglySorted lt l1 → StronglySorted lt l2 → l1 ≡ₚ l2 → l1 = l2.
Proof.
  apply StronglySorted_unique_strong. intros a b _ _ Hab Hba.
  destruct (lt_irrefl a). by eapply lt_trans.
Qed.

(** Any strictly increasing arrangement of the elements is the one
    [Strings] returns. *)
Lemma Strings_unique (l l' : list string) :
  NoDup l → StronglySorted lt l' → l' ≡ₚ l → l' = Strings l.
Proof.
  intros Hnd Hs Hp. apply sorted_unique; [done | by apply Strings_sorted |].
  by rewrite Strings_Permutation.
Qed.

(** The order in which the elements come in does not matter. *)
Lemma Strings_order_irrelevant (l l' : list string) :
  NoDup l → l' ≡ₚ l → Strings l' = Strings l.
Proof.
  intros Hnd Hp. apply Strings_unique; [done | |].
  - apply Strings_sorted. by rewrite Hp.
  - by rewrite Strings_Permutation.
Qed.

End Go_sort_facts.

(** ** The two scans of [Namenodes] *)

Section scans.
Implicit Types (entries : list (string * string)) (conf : HadoopConf).

Lemma find_fs_name_absent entries (acc : string) :
  "fs.defaultFS" ∉ entries.*1 → find_fs_name entries acc = acc.
Proof.
  revert acc. induction entries as [|[key value] entries IH]; intros acc Hk; [done |].
  rewrite fmap_cons in Hk. apply not_elem_of_cons in Hk as [Hne Hk].
  unfold find_fs_name in *. simpl in *.
  destruct (String.eqb_spec key "fs.defaultFS"); [congruence |]. by apply IH.
Qed.

Lemma find_fs_name_present entries (acc v : string) :
  NoDup entries.*1 → ("fs.defaultFS", v) ∈ entries →
  find_fs_name entries acc = Go_strings.TrimPrefix v "hdfs://".
Proof.
  revert acc. induction entries as [|[key value] entries IH]; intros acc Hnd Hin.
  { by apply elem_of_nil in Hin. }
  rewrite fmap_cons in Hnd. apply NoDup_cons in Hnd as [Hfresh Hnd].
  change (find_fs_name ((key, value) :: entries) acc)
    with (find_fs_name entries
            (if String.eqb key "fs.defaultFS"
             then Go_strings.TrimPrefix value "hdfs://" else acc)).
  apply elem_of_cons in Hin as [Heq | Hin].
  - injection Heq as <- <-. simpl in Hfresh. by rewrite find_fs_name_absent.
  - by apply IH.
Qed.

(** Whatever order the entries of the map are visited in, the scan ends
    with the trimmed value of [fs.defaultFS] when the map has that key, and
    with the variable untouched when it has not. *)
Lemma find_fs_name_conf conf entries (acc : string) :
  entries ≡ₚ map_to_list conf →
  find_fs_name entries acc =
    match conf !! "fs.defaultFS" with
    | Some v => Go_strings.TrimPrefix v "hdfs://"
    | None => acc
    end.
Proof.
  intros Hp. destruct (conf !! "fs.defaultFS") as [v|] eqn:Hv.
  - apply find_fs_name_present.
    + rewrite Hp. apply NoDup_fst_map_to_list.
    + rewrite Hp. by apply elem_of_map_to_list.
  - apply find_fs_name_absent. rewrite Hp.
    intros ([k v] & Hk & Hin)%list_elem_of_fmap. simpl in Hk. subst k.
    apply elem_of_map_to_list in Hin. congruence.
Qed.

Lemma elem_of_extract_cluster entries (name : string) (nns : gset string)
    (a : string) :
  a ∈ extract_cluster entries name nns ↔
  a ∈ nns ∨ ∃ key, (key, a) ∈ entries
                   ∧ Go_strings.HasPrefix key (Sprintf_rpc_address name) = true.
Proof.
  revert nns. induction entries as [|[key value] entries IH]; intros nns.
  { simpl. split; [auto |]. intros [? | (? & []%elem_of_nil & _)]; done. }
  change (extract_cluster ((key, value) :: entries) name nns)
    with (extract_cluster entries name
            (if Go_strings.HasPrefix key (Sprintf_rpc_address name)
             then {[value]} ∪ nns else nns)).
  rewrite IH. clear IH. setoid_rewrite elem_of_cons.
  destruct (Go_strings.HasPrefix key (Sprintf_rpc_address name)) eqn:Hp.
  - rewrite elem_of_union, elem_of_singleton. split.
    + intros [[-> | ?] | (k & ? & ?)]; [right; exists key | |]; naive_solver.
    + intros [? | (k & [[= -> ->] | ?] & ?)]; naive_solver.
  - split.
    + intros [? | (k & ? & ?)]; [by left | right; exists k; auto].
    + intros [? | (k & [[= -> ->] | ?] & ?)]; [auto | congruence | eauto].
Qed.

(** The set collected does not depend on the order of the visit. *)
Lemma extract_cluster_order_irrelevant entries entries' (name : string)
    (nns : gset string) :
  entries ≡ₚ entries' →
  extract_cluster entries name nns = extract_cluster entries' name nns.
Proof.
  intros Hp. apply set_eq. intros a. rewrite !elem_of_extract_cluster.
  by setoid_rewrite Hp.
Qed.

End scans.

(** ** The lookup meets its specification *)

Section lookup.
Implicit Types (conf : HadoopConf) (nns : gset string).

Lemma elem_of_extract_cluster_conf conf (name a : string) :
  a ∈ extract_cluster (map_to_list conf) name ∅ ↔ rpc_address_of conf name a.
Proof.
  rewrite elem_of_extract_cluster. unfold rpc_address_of. split.
  - intros [[]%not_elem_of_empty | (key & Hin & Hp)].
    apply elem_of_map_to_list in Hin.
    apply Go_strings_facts.HasPrefix_spec in Hp as [suffix ->]. by exists suffix.
  - intros [suffix Hs]. right. eexists. split.
    + apply elem_of_map_to_list, Hs.
    + apply Go_strings_facts.HasPrefix_app.
Qed.

Lemma sorted_keys_empty : sorted_keys ∅ = ([], Some errUnresolvedNamenode).
Proof. done. Qed.

Lemma sorted_keys_nonempty nns :
  nns ≠ ∅ → sorted_keys nns = (Go_sort.Strings (elements nns), None).
Proof.
  intros Hne. unfold sorted_keys.
  destruct (Nat.eqb_spec (size nns) 0) as [Hz | _]; [| done].
  by apply size_empty_iff, leibniz_equiv in Hz.
Qed.

(** Lines 90-107 return what the specification asks for, for the name in
    the local variable [defaultFsName]. *)
Lemma extract_cluster_lookup_result conf (defaultFsName : string) :
  lookup_result conf defaultFsName
    (sorted_keys (extract_cluster (map_to_list conf) defaultFsName ∅)).
Proof.
  set (nns := extract_cluster (map_to_list conf) defaultFsName ∅).
  destruct (decide (nns = ∅)) as [He | Hne].
  - rewrite He, sorted_keys_empty. constructor. intros a Ha.
    apply elem_of_extract_cluster_conf in Ha. fold nns in Ha.
    rewrite He in Ha. by apply not_elem_of_empty in Ha.
  - rewrite sorted_keys_nonempty by done. constructor.
    + intros Hnil. apply Hne. apply set_eq. intros a.
      rewrite <-elem_of_elements, <-Go_sort_facts.Strings_elem_of, Hnil.
      by rewrite elem_of_nil, elem_of_empty.
    + apply Go_sort_facts.Strings_sorted, NoDup_elements.
    + intros a. rewrite Go_sort_facts.Strings_elem_of, elem_of_elements.
      apply elem_of_extract_cluster_conf.
Qed.

(** The specification leaves no choice: two answers for one name agree. *)
Lemma lookup_result_unique conf (name : string) r1 r2 :
  lookup_result conf name r1 → lookup_result conf name r2 → r1 = r2.
Proof.
  intros [Hn1 | k1 Hne1 Hs1 Hm1] [Hn2 | k2 Hne2 Hs2 Hm2]; [done | | |].
  - destruct k2 as [|a k2]; [done |]. destruct (Hn1 a). apply Hm2. by left.
  - destruct k1 as [|a k1]; [done |]. destruct (Hn2 a). apply Hm1. by left.
  - f_equal. apply Go_sort_facts.sorted_unique; [done | done |].
    apply NoDup_Permutation.
    + by apply Go_sort_facts.sorted_NoDup.
    + by apply Go_sort_facts.sorted_NoDup.
    + intros a. by rewrite Hm1, Hm2.
Qed.

End lookup.

(** ** [Namenodes], branch by branch *)

Section Namenodes_branches.
Implicit Types (st : state) (givenFS : string).

(** No override: lines 76-84, then the lookup under the name found. *)
Lemma Namenodes_no_override st :
  Namenodes "" st =
    let defaultFsName := find_fs_name (map_to_list (conf_map st)) "" in
    if String.eqb defaultFsName "" then
      (([], Some errUnresolvedDefaultFS), st)
    else
      (sorted_keys
         (extract_cluster (map_to_list (conf_map st)) defaultFsName ∅),
       {| conf_map := conf_map st; defaultFS := defaultFsName |}).
Proof.
  unfold Namenodes, mbind, M_bind, mret, M_ret, range_conf, set_defaultFS.
  simpl. by destruct (String.eqb _ ""). 
Qed.

(** An override: line 86, then the lookup under the name left in
    [defaultFsName], which is still the empty string. *)
Lemma Namenodes_override givenFS st :
  givenFS ≠ "" →
  Namenodes givenFS st =
    (sorted_keys (extract_cluster (map_to_list (conf_map st)) "" ∅),
     {| conf_map := conf_map st; defaultFS := givenFS |}).
Proof.
  intros Hne. unfold Namenodes, mbind, M_bind, mret, M_ret, range_conf,
    set_defaultFS.
  by destruct (String.eqb_spec givenFS "").
Qed.

Lemma find_fs_name_lookup st :
  find_fs_name (map_to_list (conf_map st)) "" =
    match conf_map st !! "fs.defaultFS" with
    | Some v => Go_strings.TrimPrefix v "hdfs://"
    | None => ""
    end.
Proof. by apply find_fs_name_conf. Qed.

(** The shape of every outcome: the error of line 82 with the state
    untouched, or a determined name stored in [defaultFS] and the lookup
    under [defaultFsName]. *)
Lemma Namenodes_cases givenFS st :
  (givenFS = ""
   ∧ (∀ name, ¬ determined (conf_map st) "" name)
   ∧ Namenodes givenFS st = (([], Some errUnresolvedDefaultFS), st))
  ∨ (∃ name defaultFsName,
       determined (conf_map st) givenFS name
       ∧ (defaultFsName = if String.eqb givenFS "" then name else "")
       ∧ Namenodes givenFS st =
           (sorted_keys
              (extract_cluster (map_to_list (conf_map st)) defaultFsName ∅),
            {| conf_map := conf_map st; defaultFS := name |})).
Proof.
  destruct (String.eqb_spec givenFS "") as [-> | Hne].
  - rewrite Namenodes_no_override, find_fs_name_lookup. simpl.
    destruct (conf_map st !! "fs.defaultFS") as [v|] eqn:Hv.
    + destruct (String.eqb_spec (Go_strings.TrimPrefix v "hdfs://") "")
        as [He | Hne].
      * left. split_and!; [done | | done].
        intros name Hd. inversion Hd; simplify_eq.
      * right. eexists _, _. split_and!; [by econstructor | done | done].
    + left. split_and!; [done | | done].
      intros name Hd. inversion Hd; simplify_eq.
  - right. exists givenFS, "". split_and!.
    + by constructor.
    + by destruct (String.eqb_spec givenFS "").
    + by apply Namenodes_override.
Qed.

Lemma sorted_keys_error (nns : gset string) :
  (sorted_keys nns).2 = None ∨ (sorted_keys nns).2 = Some errUnresolvedNamenode.
Proof. unfold sorted_keys. destruct (size nns =? 0)%nat; auto. Qed.

End Namenodes_branches.

(** ** The claims on [Namenodes] *)

Lemma determined_unique (conf : HadoopConf) (givenFS n1 n2 : string) :
  determined conf givenFS n1 → determined conf givenFS n2 → n1 = n2.
Proof. intros H1 H2. inversion H1; inversion H2; simplify_eq; done. Qed.

(** With an override the lookup runs under the empty cluster name, whatever
    the override is. *)
Lemma Namenodes_override_lookup (givenFS : string) (st : state) :
  givenFS ≠ "" → lookup_result (conf_map st) "" (Namenodes givenFS st).1.
Proof.
  intros Hne. rewrite Namenodes_override by done.
  apply extract_cluster_lookup_result.
Qed.

(** Without an override, and with a name found, the lookup runs under
    that name. *)
Lemma Namenodes_default_lookup (st : state) (v : string) :
  conf_map st !! "fs.defaultFS" = Some v →
  Go_strings.TrimPrefix v "hdfs://" ≠ "" →
  lookup_result (conf_map st) (Go_strings.TrimPrefix v "hdfs://")
    (Namenodes "" st).1
  ∧ (Namenodes "" st).2
    = {| conf_map := conf_map st;
         defaultFS := Go_strings.TrimPrefix v "hdfs://" |}.
Proof.
  intros Hv Hne. rewrite Namenodes_no_override, find_fs_name_lookup, Hv. simpl.
  destruct (String.eqb_spec (Go_strings.TrimPrefix v "hdfs://") ""); [done |].
  split; [apply extract_cluster_lookup_result | done].
Qed.

(** C1 (the code departs from the claim). On the configuration of the
    specification's example, the call with the override [clusterA] does not
    return the list the call without override returns: the prefix is built
    from [defaultFsName], which the override branch leaves empty, so no key
    matches and the call fails with [errUnresolvedNamenode]. *)
Theorem Namenodes_override_clusterA :
  (Namenodes "" (initial_state conf_clusterA)).1
    = (["host1:8020"; "host2:8020"], None)
  ∧ Namenodes "clusterA" (initial_state conf_clusterA)
    = (([], Some errUnresolvedNamenode),
       {| conf_map := conf_clusterA; defaultFS := "clusterA" |}).
Proof. split; by vm_compute. Qed.

(** C2 (the code departs from the claim). The cluster name determined by the
    override [clusterB] has one address in the configuration, and the call
    nevertheless fails with [errUnresolvedNamenode]: what it returns is not
    the answer the specification asks for under that name. *)
Theorem Namenodes_override_clusterB :
  determined conf_clusterB "clusterB" "clusterB"
  ∧ rpc_address_of conf_clusterB "clusterB" "b1:8020"
  ∧ (Namenodes "clusterB" (initial_state conf_clusterB)).1
    = ([], Some errUnresolvedNamenode)
  ∧ ¬ lookup_result conf_clusterB "clusterB"
        (Namenodes "clusterB" (initial_state conf_clusterB)).1.
Proof.
  assert (rpc_address_of conf_clusterB "clusterB" "b1:8020") as Ha.
  { exists "nn1". by vm_compute. }
  assert ((Namenodes "clusterB" (initial_state conf_clusterB)).1
          = ([], Some errUnresolvedNamenode)) as Hr by (by vm_compute).
  split_and!; [by constructor | done | done |].
  rewrite Hr. inversion 1 as [Hnone |]. by apply (Hnone "b1:8020").
Qed.

(** C5. Without an override, a configuration that has no [fs.defaultFS]
    makes the call fail with [errUnresolvedDefaultFS]. *)
Theorem Namenodes_no_defaultFS (st : state) :
  conf_map st !! "fs.defaultFS" = None →
  (Namenodes "" st).1 = ([], Some errUnresolvedDefaultFS).
Proof.
  intros Hv. by rewrite Namenodes_no_override, find_fs_name_lookup, Hv.
Qed.

Lemma Namenodes_no_defaultFS_witness :
  conf_map (initial_state ∅) !! "fs.defaultFS" = None
  ∧ (Namenodes "" (initial_state ∅)).1 = ([], Some errUnresolvedDefaultFS).
Proof.
  split; [reflexivity | apply (Namenodes_no_defaultFS (initial_state ∅))].
  reflexivity.
Defined.

(** C6. Without an override, and with [fs.defaultFS] in the configuration,
    the cluster name is the value of that key without a leading [hdfs://].
    When that name is not empty the call returns the lookup under it (the
    addresses under [dfs.namenode.rpc-address.<name>.], each once, in
    increasing order, or [errUnresolvedNamenode] when there are none) and
    stores it in [defaultFS]; when it is empty the call stops with
    [errUnresolvedDefaultFS] and stores nothing. So the call succeeds
    exactly when the name is not empty and has an address, and [defaultFS]
    then holds the name. *)
Theorem Namenodes_default_cluster (st : state) (v : string) :
  conf_map st !! "fs.defaultFS" = Some v →
  (∀ n, v = "hdfs://" ++ n → Go_strings.TrimPrefix v "hdfs://" = n)
  ∧ (Go_strings.HasPrefix v "hdfs://" = false →
     Go_strings.TrimPrefix v "hdfs://" = v)
  ∧ (Go_strings.TrimPrefix v "hdfs://" ≠ "" →
     lookup_result (conf_map st) (Go_strings.TrimPrefix v "hdfs://")
       (Namenodes "" st).1
     ∧ (Namenodes "" st).2
       = {| conf_map := conf_map st;
            defaultFS := Go_strings.TrimPrefix v "hdfs://" |})
  ∧ (Go_strings.TrimPrefix v "hdfs://" = "" →
     Namenodes "" st = (([], Some errUnresolvedDefaultFS), st))
  ∧ ((Namenodes "" st).1.2 = None ↔
     Go_strings.TrimPrefix v "hdfs://" ≠ ""
     ∧ ∃ a, rpc_address_of (conf_map st)
              (Go_strings.TrimPrefix v "hdfs://") a)
  ∧ ((Namenodes "" st).1.2 = None →
     defaultFS (Namenodes "" st).2 = Go_strings.TrimPrefix v "hdfs://").
Proof.
  intros Hv.
  assert (Go_strings.TrimPrefix v "hdfs://" = "" →
          Namenodes "" st = (([], Some errUnresolvedDefaultFS), st)) as Hempty.
  { intros He. rewrite Namenodes_no_override, find_fs_name_lookup, Hv. simpl.
    by rewrite He. }
  split_and!.
  - intros n ->. apply Go_strings_facts.TrimPrefix_app.
  - apply Go_strings_facts.TrimPrefix_other.
  - by apply Namenodes_default_lookup.
  - done.
  - destruct (decide (Go_strings.TrimPrefix v "hdfs://" = "")) as [He | Hne].
    + rewrite (Hempty He). simpl. split; [done | by intros [? _]].
    + destruct (Namenodes_default_lookup st v Hv Hne) as [Hl _].
      destruct Hl as [Hnone | keys Hkeys _ Hm]; simpl.
      * split; [done |]. intros [_ [a Ha]]. by destruct (Hnone a).
      * split; [| done]. intros _. split; [done |].
        destruct keys as [|a keys]; [done |]. exists a. apply Hm. by left.
  - intros Hok.
    destruct (decide (Go_strings.TrimPrefix v "hdfs://" = "")) as [He | Hne].
    + by rewrite (Hempty He) in Hok.
    + destruct (Namenodes_default_lookup st v Hv Hne) as [_ ->]. done.
Qed.

Lemma Namenodes_default_cluster_witness :
  conf_map {| conf_map := conf_clusterA; defaultFS := "old" |}
    !! "fs.defaultFS" = Some "hdfs://clusterA"
  ∧ lookup_result conf_clusterA "clusterA"
      (Namenodes "" {| conf_map := conf_clusterA; defaultFS := "old" |}).1
  ∧ (Namenodes "" {| conf_map := conf_clusterA; defaultFS := "old" |}).2
    = {| conf_map := conf_clusterA; defaultFS := "clusterA" |}
  ∧ (Namenodes "" {| conf_map := conf_clusterA; defaultFS := "old" |}).1
    = (["host1:8020"; "host2:8020"], None).
Proof.
  assert (conf_map {| conf_map := conf_clusterA; defaultFS := "old" |}
            !! "fs.defaultFS" = Some "hdfs://clusterA") as Hv
    by (by vm_compute).
  destruct (Namenodes_default_cluster
              {| conf_map := conf_clusterA; defaultFS := "old" |}
              "hdfs://clusterA" Hv) as (_ & _ & Hname & _).
  destruct Hname as [Hlookup Hstate]; [by vm_compute |].
  split_and!; [done | exact Hlookup | exact Hstate | by vm_compute].
Defined.

(** C7. Whenever a cluster name is determined, [defaultFS] holds it after the
    call, and the call either succeeds or fails with
    [errUnresolvedNamenode]. *)
Theorem Namenodes_stores_determined (givenFS : string) (st : state)
    (name : string) :
  determined (conf_map st) givenFS name →
  defaultFS (Namenodes givenFS st).2 = name
  ∧ ((Namenodes givenFS st).1.2 = None
     ∨ (Namenodes givenFS st).1.2 = Some errUnresolvedNamenode).
Proof.
  intros Hd.
  destruct (Namenodes_cases givenFS st)
    as [(-> & Hnone & _) | (name' & dn & Hd' & _ & ->)].
  - by destruct (Hnone name).
  - rewrite (determined_unique _ _ _ _ Hd Hd'). simpl.
    split; [done | apply sorted_keys_error].
Qed.

(** The failing branch of C7: the state is overwritten before the lookup
    fails. *)
Lemma Namenodes_stores_determined_witness :
  determined (conf_map {| conf_map := conf_clusterB; defaultFS := "old" |})
    "" "clusterA"
  ∧ (Namenodes "" {| conf_map := conf_clusterB; defaultFS := "old" |}).1.2
    = Some errUnresolvedNamenode
  ∧ defaultFS
      (Namenodes "" {| conf_map := conf_clusterB; defaultFS := "old" |}).2
    = "clusterA".
Proof.
  assert (determined
            (conf_map {| conf_map := conf_clusterB; defaultFS := "old" |})
            "" "clusterA") as Hd.
  { apply (determined_default conf_clusterB "hdfs://clusterA");
      by vm_compute. }
  split_and!; [done | by vm_compute |].
  apply (Namenodes_stores_determined "" _ "clusterA" Hd).
Defined.

(** The succeeding branch, with an override. *)
Example Namenodes_stores_override :
  Namenodes "x" {| conf_map := conf_scheme_only; defaultFS := "old" |}
  = ((["host1:8020"], None),
     {| conf_map := conf_scheme_only; defaultFS := "x" |}).
Proof. by vm_compute. Qed.

(** C8. The map the receiver refers to is the same after the call. *)
Theorem Namenodes_conf_unchanged (givenFS : string) (st : state) :
  conf_map (Namenodes givenFS st).2 = conf_map st.
Proof.
  destruct (Namenodes_cases givenFS st)
    as [(_ & _ & ->) | (name & dn & _ & _ & ->)]; done.
Qed.

(** C9. A call that fails with [errUnresolvedDefaultFS] had no override and
    leaves the state as it was; a call that fails with
    [errUnresolvedNamenode] leaves the determined cluster name in
    [defaultFS]. *)
Theorem Namenodes_failure_state (givenFS : string) (st : state) (err : error) :
  (Namenodes givenFS st).1.2 = Some err →
  match err with
  | errUnresolvedDefaultFS =>
      givenFS = ""
      ∧ (∀ name, ¬ determined (conf_map st) "" name)
      ∧ (Namenodes givenFS st).2 = st
  | errUnresolvedNamenode =>
      ∃ name, determined (conf_map st) givenFS name
              ∧ defaultFS (Namenodes givenFS st).2 = name
  end.
Proof.
  destruct (Namenodes_cases givenFS st)
    as [(-> & Hnone & ->) | (name & dn & Hd & _ & ->)]; simpl.
  - by intros [= <-].
  - intros Herr.
    destruct (sorted_keys_error
                (extract_cluster (map_to_list (conf_map st)) dn ∅))
      as [Hs | Hs]; rewrite Hs in Herr; [done |].
    injection Herr as <-. eauto.
Qed.

Lemma Namenodes_failure_state_witness :
  (Namenodes "" {| conf_map := ∅; defaultFS := "old" |}).1.2
    = Some errUnresolvedDefaultFS
  ∧ (Namenodes "" {| conf_map := ∅; defaultFS := "old" |}).2
    = {| conf_map := ∅; defaultFS := "old" |}.
Proof.
  assert ((Namenodes "" {| conf_map := ∅; defaultFS := "old" |}).1.2
          = Some errUnresolvedDefaultFS) as Herr by reflexivity.
  split; [done |].
  apply (Namenodes_failure_state "" _ errUnresolvedDefaultFS Herr).
Defined.

(** C10. Without an override, an [fs.defaultFS] that is empty or is exactly
    [hdfs://] makes the call fail with [errUnresolvedDefaultFS] and leave
    the state alone, which is what the call does when the key is deleted. *)
Theorem Namenodes_empty_cluster_name (st : state) (v : string) :
  conf_map st !! "fs.defaultFS" = Some v →
  v = "" ∨ v = "hdfs://" →
  Namenodes "" st = (([], Some errUnresolvedDefaultFS), st)
  ∧ (Namenodes "" st).1
    = (Namenodes ""
         {| conf_map := delete "fs.defaultFS" (conf_map st);
            defaultFS := defaultFS st |}).1.
Proof.
  intros Hv Hempty. apply Go_strings_facts.TrimPrefix_empty in Hempty.
  assert (Namenodes "" st = (([], Some errUnresolvedDefaultFS), st)) as ->.
  { rewrite Namenodes_no_override, find_fs_name_lookup, Hv. simpl.
    by rewrite Hempty. }
  split; [done |]. rewrite Namenodes_no_override, find_fs_name_lookup. simpl.
  by rewrite lookup_delete_eq.
Qed.

Lemma Namenodes_empty_cluster_name_witness :
  conf_map (initial_state conf_scheme_only) !! "fs.defaultFS" = Some "hdfs://"
  ∧ Namenodes "" (initial_state conf_scheme_only)
    = (([], Some errUnresolvedDefaultFS), initial_state conf_scheme_only).
Proof.
  assert (conf_map (initial_state conf_scheme_only) !! "fs.defaultFS"
          = Some "hdfs://") as Hv by (by vm_compute).
  split; [done |].
  apply (Namenodes_empty_cluster_name _ "hdfs://" Hv). by right.
Defined.

(** ** The claims on [LoadHadoopConf] *)

Section LoadHadoopConf_facts.
Context (Getenv : string → string) (Join : string → string → string).
Context (ReadFile : string → option string).
Context (Unmarshal : string → option propertyList).
Implicit Types (hadoopConf : HadoopConf) (pList : propertyList).

Lemma store_properties_app hadoopConf (l1 l2 : list Property) :
  store_properties hadoopConf (mkPropertyList (l1 ++ l2))
  = store_properties (store_properties hadoopConf (mkPropertyList l1))
      (mkPropertyList l2).
Proof. unfold store_properties. simpl. apply foldl_app. Qed.

(** A key no property names keeps the entry it had. *)
Lemma store_properties_lookup_other hadoopConf pList (key : string) :
  key ∉ Name <$> pl_Property pList →
  store_properties hadoopConf pList !! key = hadoopConf !! key.
Proof.
  destruct pList as [l]. unfold store_properties. simpl.
  revert hadoopConf. induction l as [|p l IH]; intros hadoopConf Hk; [done |].
  rewrite fmap_cons in Hk. apply not_elem_of_cons in Hk as [Hne Hk].
  simpl. rewrite IH by done. by apply lookup_insert_ne.
Qed.

(** A key some property names gets the value of the last property that
    names it. *)
Lemma store_properties_lookup_last hadoopConf pList
    (before after : list Property) (key value : string) :
  pl_Property pList = (before ++ mkProperty key value :: after)%list →
  key ∉ Name <$> after →
  store_properties hadoopConf pList !! key = Some value.
Proof.
  destruct pList as [l]. simpl. intros -> Hafter.
  rewrite store_properties_app.
  change (mkPropertyList (mkProperty key value :: after))
    with (mkPropertyList ([mkProperty key value] ++ after)).
  rewrite store_properties_app, store_properties_lookup_other by done.
  unfold store_properties at 1. simpl. apply lookup_insert_eq.
Qed.

Lemma load_file_properties (path : string) hadoopConf (file : string) :
  load_file Join ReadFile Unmarshal path hadoopConf file
  = store_properties hadoopConf
      (mkPropertyList (file_properties ReadFile Unmarshal (Join path file))).
Proof.
  unfold load_file, file_properties.
  destruct (ReadFile (Join path file)) as [f|]; [| done].
  destruct (Unmarshal f) as [[l]|]; done.
Qed.

Lemma unusable_file_properties (name : string) :
  unusable ReadFile Unmarshal name →
  file_properties ReadFile Unmarshal name = [].
Proof.
  unfold file_properties. intros [-> | (f & -> & ->)]; done.
Qed.

Lemma LoadHadoopConf_files (path : string) :
  LoadHadoopConf Getenv Join ReadFile Unmarshal path
  = load_file Join ReadFile Unmarshal (conf_dir Getenv Join path)
      (load_file Join ReadFile Unmarshal (conf_dir Getenv Join path) ∅
         "core-site.xml")
      "hdfs-site.xml".
Proof. done. Qed.

(** Both files at once: the result is built from the empty map by the
    properties of [core-site.xml] followed by those of [hdfs-site.xml]. *)
Lemma LoadHadoopConf_merged (path : string) :
  LoadHadoopConf Getenv Join ReadFile Unmarshal path
  = store_properties ∅
      (mkPropertyList
         (file_properties ReadFile Unmarshal
            (Join (conf_dir Getenv Join path) "core-site.xml")
          ++ file_properties ReadFile Unmarshal
               (Join (conf_dir Getenv Join path) "hdfs-site.xml"))).
Proof.
  rewrite LoadHadoopConf_files, !load_file_properties.
  by rewrite store_properties_app.
Qed.

End LoadHadoopConf_facts.

(** C3. [LoadHadoopConf] has no error to return: it is a map in every case.
    A file that cannot be read or decoded leaves the map as it is, the
    result is what the properties the two files contribute build up from
    the empty map, and it is the empty map when neither contributes any. *)
Theorem LoadHadoopConf_never_fails (Getenv : string → string)
    (Join : string → string → string) (ReadFile : string → option string)
    (Unmarshal : string → option propertyList) (path : string) :
  (∀ (file : string) (hadoopConf : HadoopConf),
     unusable ReadFile Unmarshal (Join (conf_dir Getenv Join path) file) →
     load_file Join ReadFile Unmarshal (conf_dir Getenv Join path)
       hadoopConf file = hadoopConf)
  ∧ LoadHadoopConf Getenv Join ReadFile Unmarshal path
    = store_properties ∅
        (mkPropertyList
           (file_properties ReadFile Unmarshal
              (Join (conf_dir Getenv Join path) "core-site.xml")
            ++ file_properties ReadFile Unmarshal
                 (Join (conf_dir Getenv Join path) "hdfs-site.xml")))
  ∧ (file_properties ReadFile Unmarshal
       (Join (conf_dir Getenv Join path) "core-site.xml") = [] →
     file_properties ReadFile Unmarshal
       (Join (conf_dir Getenv Join path) "hdfs-site.xml") = [] →
     LoadHadoopConf Getenv Join ReadFile Unmarshal path = ∅)
  ∧ (unusable ReadFile Unmarshal
       (Join (conf_dir Getenv Join path) "core-site.xml") →
     unusable ReadFile Unmarshal
       (Join (conf_dir Getenv Join path) "hdfs-site.xml") →
     LoadHadoopConf Getenv Join ReadFile Unmarshal path = ∅).
Proof.
  assert (LoadHadoopConf Getenv Join ReadFile Unmarshal path
    = store_properties ∅
        (mkPropertyList
           (file_properties ReadFile Unmarshal
              (Join (conf_dir Getenv Join path) "core-site.xml")
            ++ file_properties ReadFile Unmarshal
                 (Join (conf_dir Getenv Join path) "hdfs-site.xml")))) as Hall.
  { rewrite LoadHadoopConf_files, !load_file_properties.
    by rewrite store_properties_app. }
  split_and!.
  - intros file hadoopConf Hu.
    by rewrite load_file_properties, unusable_file_properties.
  - done.
  - intros H1 H2. by rewrite Hall, H1, H2.
  - intros H1%unusable_file_properties H2%unusable_file_properties.
    by rewrite Hall, H1, H2.
Qed.

(** A directory without the two files, and one whose [core-site.xml] is not
    XML, both give the empty configuration. *)
Example LoadHadoopConf_missing_files :
  LoadHadoopConf example_Getenv example_Join example_ReadFile
    example_Unmarshal "/nowhere" = ∅
  ∧ LoadHadoopConf example_Getenv example_Join example_ReadFile
      example_Unmarshal "/broken" = ∅.
Proof. split; by vm_compute. Qed.

(** C4. When both files are read and decoded, a key that both define is
    mapped to the value [hdfs-site.xml] gives it, that is the value of the
    last property of that file with this name. *)
Theorem LoadHadoopConf_hdfs_site_wins (Getenv : string → string)
    (Join : string → string → string) (ReadFile : string → option string)
    (Unmarshal : string → option propertyList) (path : string)
    (core hdfs : string) (corePList hdfsPList : propertyList)
    (before after : list Property) (key value : string) :
  ReadFile (Join (conf_dir Getenv Join path) "core-site.xml") = Some core →
  Unmarshal core = Some corePList →
  ReadFile (Join (conf_dir Getenv Join path) "hdfs-site.xml") = Some hdfs →
  Unmarshal hdfs = Some hdfsPList →
  key ∈ Name <$> pl_Property corePList →
  pl_Property hdfsPList = (before ++ mkProperty key value :: after)%list →
  key ∉ Name <$> after →
  LoadHadoopConf Getenv Join ReadFile Unmarshal path !! key = Some value.
Proof.
  intros Hr1 Hu1 Hr2 Hu2 _ Hlast Hafter.
  rewrite LoadHadoopConf_files. unfold load_file at 1. rewrite Hr2, Hu2.
  by eapply store_properties_lookup_last.
Qed.

Lemma LoadHadoopConf_hdfs_site_wins_witness :
  LoadHadoopConf example_Getenv example_Join example_ReadFile
    example_Unmarshal "/etc/hadoop" !! "fs.defaultFS"
  = Some "hdfs://clusterA".
Proof.
  apply (LoadHadoopConf_hdfs_site_wins example_Getenv example_Join
           example_ReadFile example_Unmarshal "/etc/hadoop"
           example_core_site example_hdfs_site
           (mkPropertyList [mkProperty "fs.defaultFS" "hdfs://old";
                            mkProperty "io.file.buffer.size" "4096"])
           (mkPropertyList
              [mkProperty "fs.defaultFS" "hdfs://clusterA";
               mkProperty "dfs.namenode.rpc-address.clusterA.nn1"
                 "host1:8020"])
           []
           [mkProperty "dfs.namenode.rpc-address.clusterA.nn1" "host1:8020"]
           "fs.defaultFS" "hdfs://clusterA").
  - reflexivity.
  - reflexivity.
  - reflexivity.
  - reflexivity.
  - vm_compute. apply list_elem_of_here.
  - reflexivity.
  - vm_compute. intros H. inversion H as [| ? ? ? H']. inversion H'.
Defined.

(** * Part IV: further properties of the code *)

(** ** [Namenodes] and [GetDefaultFS] *)

(** X1. [GetDefaultFS] keeps answering with the name of the last call that
    determined one: after a call with an override, a call without override
    on a configuration that has no [fs.defaultFS] fails and leaves the
    override to be read. *)
Theorem GetDefaultFS_survives_failed_call (givenFS : string) (st : state) :
  givenFS ≠ "" →
  conf_map st !! "fs.defaultFS" = None →
  (Namenodes givenFS;; r ← Namenodes ""; fs ← GetDefaultFS; mret (r, fs)) st
  = ((([], Some errUnresolvedDefaultFS), givenFS),
     {| conf_map := conf_map st; defaultFS := givenFS |}).
Proof.
  intros Hne Hv.
  unfold mbind at 1. unfold M_bind. rewrite Namenodes_override by done.
  unfold mbind at 1. unfold M_bind.
  rewrite Namenodes_no_override, find_fs_name_lookup. simpl. by rewrite Hv.
Qed.

Lemma GetDefaultFS_survives_failed_call_witness :
  (Namenodes "x";; r ← Namenodes ""; fs ← GetDefaultFS; mret (r, fs))
    (initial_state ∅)
  = ((([], Some errUnresolvedDefaultFS), "x"),
     {| conf_map := ∅; defaultFS := "x" |}).
Proof.
  apply (GetDefaultFS_survives_failed_call "x" (initial_state ∅)).
  - discriminate.
  - reflexivity.
Defined.

(** X2. What a call returns is well formed: with an error the slice is nil;
    without one it is not empty, strictly increasing (so without
    duplicates), and made of values of the configuration. *)
Theorem Namenodes_result_shape (givenFS : string) (st : state) :
  match (Namenodes givenFS st).1 with
  | (keys, Some _) => keys = []
  | (keys, None) =>
      keys ≠ []
      ∧ StronglySorted Go_sort.lt keys
      ∧ NoDup keys
      ∧ ∀ a, a ∈ keys → ∃ key, conf_map st !! key = Some a
  end.
Proof.
  destruct (Namenodes_cases givenFS st)
    as [(_ & _ & ->) | (name & dn & _ & _ & ->)]; [done |]. simpl.
  destruct (extract_cluster_lookup_result (conf_map st) dn)
    as [_ | keys Hne Hs Hm]; [done |].
  split_and!; [done | done | by apply Go_sort_facts.sorted_NoDup |].
  intros a [suffix Ha]%Hm. eauto.
Qed.

(** X3. A second call with the same argument returns what the first
    returned and leaves the state the first left. *)
Theorem Namenodes_idempotent (givenFS : string) (st : state) :
  Namenodes givenFS (Namenodes givenFS st).2 = Namenodes givenFS st.
Proof.
  destruct (Namenodes_cases givenFS st)
    as [(-> & _ & Hn) | (name & dn & Hd & Hdn & Hn)]; rewrite Hn; simpl.
  - exact Hn.
  - destruct (Namenodes_cases givenFS
                {| conf_map := conf_map st; defaultFS := name |})
      as [(-> & Hnone & _) | (name' & dn' & Hd' & Hdn' & Hn')]; simpl in *.
    + by destruct (Hnone name).
    + rewrite Hn'. rewrite (determined_unique _ _ _ _ Hd Hd') in *.
      by subst dn dn'.
Qed.

(** X4. The call never reads [defaultFS]: what it returns and what it stores
    are the same from any earlier value, except that the failure with
    [errUnresolvedDefaultFS] stores nothing. *)
Theorem Namenodes_ignores_old_defaultFS (givenFS : string)
    (conf : HadoopConf) (old1 old2 : string) :
  (Namenodes givenFS {| conf_map := conf; defaultFS := old1 |}).1
  = (Namenodes givenFS {| conf_map := conf; defaultFS := old2 |}).1
  ∧ ((Namenodes givenFS {| conf_map := conf; defaultFS := old1 |}).1.2
       ≠ Some errUnresolvedDefaultFS →
     (Namenodes givenFS {| conf_map := conf; defaultFS := old1 |}).2
     = (Namenodes givenFS {| conf_map := conf; defaultFS := old2 |}).2).
Proof.
  destruct (String.eqb_spec givenFS "") as [-> | Hne].
  - rewrite !Namenodes_no_override. cbv zeta. simpl.
    destruct (String.eqb (find_fs_name (map_to_list conf) "") ""); done.
  - by rewrite !Namenodes_override.
Qed.

(** X5. With an override the list returned does not depend on which
    override it is: the prefix is built from [defaultFsName], which this
    branch leaves empty, so the lookup is the one under
    [dfs.namenode.rpc-address..]. *)
Theorem Namenodes_override_not_in_prefix (givenFS1 givenFS2 : string)
    (st : state) :
  givenFS1 ≠ "" → givenFS2 ≠ "" →
  (Namenodes givenFS1 st).1 = (Namenodes givenFS2 st).1
  ∧ lookup_result (conf_map st) "" (Namenodes givenFS1 st).1.
Proof.
  intros H1 H2. split; [by rewrite !Namenodes_override |].
  by apply Namenodes_override_lookup.
Qed.

Lemma Namenodes_override_not_in_prefix_witness :
  (Namenodes "clusterA" (initial_state conf_scheme_only)).1
  = (Namenodes "clusterB" (initial_state conf_scheme_only)).1
  ∧ lookup_result conf_scheme_only ""
      (Namenodes "clusterA" (initial_state conf_scheme_only)).1.
Proof.
  apply (Namenodes_override_not_in_prefix "clusterA" "clusterB"
           (initial_state conf_scheme_only)); discriminate.
Defined.

(** ** What the lookup depends on *)

Lemma rpc_address_of_insert_unrelated (conf : HadoopConf)
    (key value name a : string) :
  Go_strings.HasPrefix key "dfs.namenode.rpc-address." = false →
  rpc_address_of (<[key := value]> conf) name a ↔ rpc_address_of conf name a.
Proof.
  intros Hp. unfold rpc_address_of.
  assert (∀ suffix,
    key ≠ ("dfs.namenode.rpc-address." ++ name ++ ".") ++ suffix) as Hne.
  { intros suffix ->.
    assert (Go_strings.HasPrefix
              (("dfs.namenode.rpc-address." ++ name ++ ".") ++ suffix)
              "dfs.namenode.rpc-address." = true) as Ht; [| congruence].
    apply Go_strings_facts.HasPrefix_spec.
    by exists ((name ++ ".") ++ suffix). }
  split; intros [suffix Hs]; exists suffix.
  - by rewrite lookup_insert_ne in Hs.
  - by rewrite lookup_insert_ne.
Qed.

(** X6. An entry whose key is neither [fs.defaultFS] nor under
    [dfs.namenode.rpc-address.] plays no part: adding it, or changing its
    value, changes neither what the call returns nor what it stores in
    [defaultFS]. *)
Theorem Namenodes_unrelated_key (givenFS : string) (st : state)
    (key value : string) :
  key ≠ "fs.defaultFS" →
  Go_strings.HasPrefix key "dfs.namenode.rpc-address." = false →
  (Namenodes givenFS
     {| conf_map := <[key := value]> (conf_map st);
        defaultFS := defaultFS st |}).1
  = (Namenodes givenFS st).1
  ∧ defaultFS
      (Namenodes givenFS
         {| conf_map := <[key := value]> (conf_map st);
            defaultFS := defaultFS st |}).2
    = defaultFS (Namenodes givenFS st).2.
Proof.
  intros Hk Hp.
  assert (∀ name,
    extract_cluster (map_to_list (<[key := value]> (conf_map st))) name ∅
    = extract_cluster (map_to_list (conf_map st)) name ∅) as Hsame.
  { intros name. apply set_eq. intros a.
    rewrite !elem_of_extract_cluster_conf.
    by apply rpc_address_of_insert_unrelated. }
  destruct (String.eqb_spec givenFS "") as [-> | Hne].
  - rewrite !Namenodes_no_override, !find_fs_name_lookup. cbv zeta. simpl.
    rewrite lookup_insert_ne by done. rewrite Hsame.
    destruct (conf_map st !! "fs.defaultFS") as [v|]; [| done].
    destruct (String.eqb (Go_strings.TrimPrefix v "hdfs://") ""); done.
  - rewrite !Namenodes_override by done. simpl. by rewrite Hsame.
Qed.

Lemma Namenodes_unrelated_key_witness :
  (Namenodes ""
     {| conf_map := <["io.file.buffer.size" := "4096"]> conf_clusterA;
        defaultFS := "" |}).1
  = (Namenodes "" (initial_state conf_clusterA)).1
  ∧ defaultFS
      (Namenodes ""
         {| conf_map := <["io.file.buffer.size" := "4096"]> conf_clusterA;
            defaultFS := "" |}).2
    = defaultFS (Namenodes "" (initial_state conf_clusterA)).2.
Proof.
  apply (Namenodes_unrelated_key "" (initial_state conf_clusterA)
           "io.file.buffer.size" "4096").
  - discriminate.
  - reflexivity.
Defined.

(** X7. Go visits the entries of a map in an order it does not fix. Neither
    scan depends on that order, and neither does the sorted slice on the
    order in which the addresses were appended. *)
Theorem Namenodes_order_irrelevant (conf : HadoopConf)
    (entries : list (string * string)) (name : string) (nns : gset string)
    (keys : list string) :
  entries ≡ₚ map_to_list conf →
  keys ≡ₚ elements nns →
  find_fs_name entries "" = find_fs_name (map_to_list conf) ""
  ∧ extract_cluster entries name ∅
    = extract_cluster (map_to_list conf) name ∅
  ∧ Go_sort.Strings keys = Go_sort.Strings (elements nns).
Proof.
  intros He Hk. split_and!.
  - by rewrite !(find_fs_name_conf conf).
  - by apply extract_cluster_order_irrelevant.
  - apply Go_sort_facts.Strings_order_irrelevant; [apply NoDup_elements | done].
Qed.

Lemma Namenodes_order_irrelevant_witness :
  find_fs_name (reverse (map_to_list conf_clusterA)) ""
  = find_fs_name (map_to_list conf_clusterA) ""
  ∧ extract_cluster (reverse (map_to_list conf_clusterA)) "clusterA" ∅
    = extract_cluster (map_to_list conf_clusterA) "clusterA" ∅
  ∧ Go_sort.Strings (reverse (elements ({["b"; "a"]} : gset string)))
    = Go_sort.Strings (elements ({["b"; "a"]} : gset string)).
Proof.
  apply (Namenodes_order_irrelevant conf_clusterA
           (reverse (map_to_list conf_clusterA)) "clusterA"
           ({["b"; "a"]} : gset string)
           (reverse (elements ({["b"; "a"]} : gset string)))).
  - apply reverse_Permutation.
  - apply reverse_Permutation.
Defined.

Lemma size_extract_cluster (entries : list (string * string)) (name : string)
    (nns : gset string) :
  (size (extract_cluster entries name nns) ≤ size nns + List.length entries)%nat.
Proof.
  revert nns. induction entries as [|[key value] entries IH]; intros nns.
  { simpl. lia. }
  change (extract_cluster ((key, value) :: entries) name nns)
    with (extract_cluster entries name
            (if Go_strings.HasPrefix key (Sprintf_rpc_address name)
             then {[value]} ∪ nns else nns)).
  etrans; [apply IH |]. simpl.
  destruct (Go_strings.HasPrefix key (Sprintf_rpc_address name)); [| lia].
  rewrite size_union_alt, size_singleton.
  assert (size (nns ∖ {[value]}) ≤ size nns)%nat; [| lia].
  apply subseteq_size. intros x Hx. by apply elem_of_difference in Hx as [? _].
Qed.

(** X8. The call returns at most as many addresses as the configuration has
    entries. *)
Theorem Namenodes_length_bound (givenFS : string) (st : state) :
  (List.length (Namenodes givenFS st).1.1 ≤ size (conf_map st))%nat.
Proof.
  destruct (Namenodes_cases givenFS st)
    as [(_ & _ & ->) | (name & dn & _ & _ & ->)]; simpl; [lia |].
  unfold sorted_keys.
  destruct (size _ =? 0)%nat; simpl; [lia |].
  rewrite Go_sort_facts.Strings_Permutation.
  change (List.length (elements ?X)) with (size X).
  etrans; [apply size_extract_cluster |].
  rewrite size_empty, length_map_to_list. lia.
Qed.

(** ** [LoadHadoopConf]: where it reads and what it keeps *)

Section LoadHadoopConf_more.
Context (Getenv : string → string) (Join : string → string → string).
Context (ReadFile : string → option string).
Context (Unmarshal : string → option propertyList).

Lemma last_property (l : list Property) (key : string) :
  key ∈ Name <$> l →
  ∃ before value after,
    l = (before ++ mkProperty key value :: after)%list
    ∧ key ∉ Name <$> after.
Proof.
  induction l as [|[n v] l IH]; intros Hin.
  { by apply elem_of_nil in Hin. }
  destruct (decide (key ∈ Name <$> l)) as [Hl | Hl].
  - destruct (IH Hl) as (before & value & after & -> & Hafter).
    by exists (mkProperty n v :: before), value, after.
  - rewrite fmap_cons in Hin. apply elem_of_cons in Hin as [-> | Hin]; [| done].
    by exists [], v, l.
Qed.

Lemma store_properties_lookup_Some (hadoopConf : HadoopConf)
    (l : list Property) (key value : string) :
  store_properties hadoopConf (mkPropertyList l) !! key = Some value →
  mkProperty key value ∈ l
  ∨ ((key ∉ Name <$> l) ∧ hadoopConf !! key = Some value).
Proof.
  intros Hs. destruct (decide (key ∈ Name <$> l)) as [Hl | Hl].
  - left. destruct (last_property l key Hl) as (before & v & after & -> & Ha).
    rewrite (store_properties_lookup_last _ _ before after key v) in Hs
      by done.
    injection Hs as ->. apply elem_of_app. right. by left.
  - right. by rewrite store_properties_lookup_other in Hs.
Qed.

(** X9. With a path given, the environment is not consulted. *)
Theorem LoadHadoopConf_path_given (Getenv' : string → string)
    (path : string) :
  path ≠ "" →
  LoadHadoopConf Getenv Join ReadFile Unmarshal path
  = LoadHadoopConf Getenv' Join ReadFile Unmarshal path.
Proof.
  intros Hne. unfold LoadHadoopConf, conf_dir.
  by destruct (String.eqb_spec path "").
Qed.

(** X10. Without a path, a non-empty [HADOOP_CONF_DIR] is the directory,
    whatever [HADOOP_HOME] is: the result is the one for that path given
    explicitly. *)
Theorem LoadHadoopConf_env_conf_dir :
  Getenv "HADOOP_CONF_DIR" ≠ "" →
  LoadHadoopConf Getenv Join ReadFile Unmarshal ""
  = LoadHadoopConf Getenv Join ReadFile Unmarshal (Getenv "HADOOP_CONF_DIR").
Proof.
  intros Hne. unfold LoadHadoopConf, conf_dir. simpl.
  by destruct (String.eqb_spec (Getenv "HADOOP_CONF_DIR") "").
Qed.

(** X11. Without a path and without [HADOOP_CONF_DIR], the directory is
    [conf] under [HADOOP_HOME]. *)
Theorem LoadHadoopConf_env_home :
  Getenv "HADOOP_CONF_DIR" = "" →
  Join (Getenv "HADOOP_HOME") "conf" ≠ "" →
  LoadHadoopConf Getenv Join ReadFile Unmarshal ""
  = LoadHadoopConf Getenv Join ReadFile Unmarshal
      (Join (Getenv "HADOOP_HOME") "conf").
Proof.
  intros He Hne. unfold LoadHadoopConf, conf_dir. simpl. rewrite He. simpl.
  by destruct (String.eqb_spec (Join (Getenv "HADOOP_HOME") "conf") "").
Qed.

(** X12. The keys of the result are the names of the properties the two
    files contribute, and each key is mapped to the value of one of the
    properties that name it. *)
Theorem LoadHadoopConf_entries (path : string) :
  (∀ key,
     is_Some (LoadHadoopConf Getenv Join ReadFile Unmarshal path !! key)
     ↔ key ∈ Name <$>
         (file_properties ReadFile Unmarshal
            (Join (conf_dir Getenv Join path) "core-site.xml")
          ++ file_properties ReadFile Unmarshal
               (Join (conf_dir Getenv Join path) "hdfs-site.xml"))%list)
  ∧ (∀ key value,
       LoadHadoopConf Getenv Join ReadFile Unmarshal path !! key = Some value →
       mkProperty key value
       ∈ (file_properties ReadFile Unmarshal
            (Join (conf_dir Getenv Join path) "core-site.xml")
          ++ file_properties ReadFile Unmarshal
               (Join (conf_dir Getenv Join path) "hdfs-site.xml"))%list).
Proof.
  rewrite (LoadHadoopConf_merged Getenv Join ReadFile Unmarshal path).
  split.
  - intros key. split.
    + intros [value Hs].
      apply store_properties_lookup_Some in Hs as [Hin | [_ Hs]]; [| done].
      apply list_elem_of_fmap. by exists (mkProperty key value).
    + intros (before & value & after & Hl & Ha)%last_property.
      exists value. by eapply store_properties_lookup_last.
  - intros key value Hs.
    by apply store_properties_lookup_Some in Hs as [Hin | [_ Hs]].
Qed.


(** X13. A key that only [core-site.xml] defines keeps the value that file
    gives it, whether [hdfs-site.xml] is skipped or just does not name it. *)
Theorem LoadHadoopConf_core_site_only (path : string) (core : string)
    (corePList : propertyList) (before after : list Property)
    (key value : string) :
  ReadFile (Join (conf_dir Getenv Join path) "core-site.xml") = Some core →
  Unmarshal core = Some corePList →
  pl_Property corePList = (before ++ mkProperty key value :: after)%list →
  key ∉ Name <$> after →
  key ∉ Name <$> file_properties ReadFile Unmarshal
                   (Join (conf_dir Getenv Join path) "hdfs-site.xml") →
  LoadHadoopConf Getenv Join ReadFile Unmarshal path !! key = Some value.
Proof.
  intros Hr Hu Hlast Hafter Hhdfs.
  rewrite LoadHadoopConf_files, load_file_properties.
  rewrite store_properties_lookup_other by done.
  unfold load_file. rewrite Hr, Hu.
  by eapply store_properties_lookup_last.
Qed.

(** X14. Only the two files of the directory are read: a file system that
    differs elsewhere gives the same configuration. *)
Theorem LoadHadoopConf_reads_two_files (ReadFile' : string → option string)
    (path : string) :
  ReadFile' (Join (conf_dir Getenv Join path) "core-site.xml")
    = ReadFile (Join (conf_dir Getenv Join path) "core-site.xml") →
  ReadFile' (Join (conf_dir Getenv Join path) "hdfs-site.xml")
    = ReadFile (Join (conf_dir Getenv Join path) "hdfs-site.xml") →
  LoadHadoopConf Getenv Join ReadFile' Unmarshal path
  = LoadHadoopConf Getenv Join ReadFile Unmarshal path.
Proof.
  intros H1 H2. rewrite !LoadHadoopConf_files. unfold load_file.
  by rewrite H1, H2.
Qed.

(** X15. Loading and then resolving without override: when [hdfs-site.xml]
    sets [fs.defaultFS] to [hdfs://] followed by a non-empty name, that name
    is the one stored in [defaultFS], whatever [core-site.xml] says, and the
    call returns the lookup under it. *)
Theorem LoadHadoopConf_then_Namenodes (path : string) (hdfs : string)
    (hdfsPList : propertyList) (before after : list Property)
    (name old : string) :
  ReadFile (Join (conf_dir Getenv Join path) "hdfs-site.xml") = Some hdfs →
  Unmarshal hdfs = Some hdfsPList →
  pl_Property hdfsPList
    = (before ++ mkProperty "fs.defaultFS" ("hdfs://" ++ name) :: after)%list →
  "fs.defaultFS" ∉ Name <$> after →
  name ≠ "" →
  defaultFS
    (Namenodes ""
       {| conf_map := LoadHadoopConf Getenv Join ReadFile Unmarshal path;
          defaultFS := old |}).2 = name
  ∧ lookup_result (LoadHadoopConf Getenv Join ReadFile Unmarshal path) name
      (Namenodes ""
         {| conf_map := LoadHadoopConf Getenv Join ReadFile Unmarshal path;
            defaultFS := old |}).1.
Proof.
  intros Hr Hu Hlast Hafter Hne.
  assert (LoadHadoopConf Getenv Join ReadFile Unmarshal path !! "fs.defaultFS"
          = Some ("hdfs://" ++ name)) as Hv.
  { rewrite LoadHadoopConf_files. unfold load_file at 1. rewrite Hr, Hu.
    by eapply store_properties_lookup_last. }
  assert (Go_strings.TrimPrefix ("hdfs://" ++ name) "hdfs://" = name) as Ht
    by apply Go_strings_facts.TrimPrefix_app.
  destruct (Namenodes_default_lookup
              {| conf_map := LoadHadoopConf Getenv Join ReadFile Unmarshal path;
                 defaultFS := old |} ("hdfs://" ++ name) Hv)
    as [Hl Hs]; [by rewrite Ht |].
  rewrite Ht in Hl, Hs. split; [by rewrite Hs | done].
Qed.

End LoadHadoopConf_more.

Lemma LoadHadoopConf_path_given_witness :
  LoadHadoopConf example_Getenv example_Join example_ReadFile
    example_Unmarshal "/etc/hadoop"
  = LoadHadoopConf example_Getenv_home example_Join example_ReadFile
      example_Unmarshal "/etc/hadoop".
Proof.
  apply (LoadHadoopConf_path_given example_Getenv example_Join
           example_ReadFile example_Unmarshal example_Getenv_home
           "/etc/hadoop").
  discriminate.
Defined.

Lemma LoadHadoopConf_env_conf_dir_witness :
  LoadHadoopConf example_Getenv_both example_Join example_ReadFile
    example_Unmarshal ""
  = LoadHadoopConf example_Getenv_both example_Join example_ReadFile
      example_Unmarshal "/etc/hadoop".
Proof.
  apply (LoadHadoopConf_env_conf_dir example_Getenv_both example_Join
           example_ReadFile example_Unmarshal).
  discriminate.
Defined.

Lemma LoadHadoopConf_env_home_witness :
  LoadHadoopConf example_Getenv_home example_Join example_ReadFile_home
    example_Unmarshal ""
  = LoadHadoopConf example_Getenv_home example_Join example_ReadFile_home
      example_Unmarshal "/opt/hadoop/conf".
Proof.
  apply (LoadHadoopConf_env_home example_Getenv_home example_Join
           example_ReadFile_home example_Unmarshal).
  - reflexivity.
  - discriminate.
Defined.

Lemma LoadHadoopConf_core_site_only_witness :
  LoadHadoopConf example_Getenv example_Join example_ReadFile
    example_Unmarshal "/etc/hadoop" !! "io.file.buffer.size" = Some "4096".
Proof.
  apply (LoadHadoopConf_core_site_only example_Getenv example_Join
           example_ReadFile example_Unmarshal "/etc/hadoop" example_core_site
           (mkPropertyList [mkProperty "fs.defaultFS" "hdfs://old";
                            mkProperty "io.file.buffer.size" "4096"])
           [mkProperty "fs.defaultFS" "hdfs://old"] []
           "io.file.buffer.size" "4096").
  - reflexivity.
  - reflexivity.
  - reflexivity.
  - vm_compute. apply not_elem_of_nil.
  - vm_compute. intros H. inversion H as [| ? ? ? H']; subst.
    inversion H' as [| ? ? ? H'']. inversion H''.
Defined.

Lemma LoadHadoopConf_reads_two_files_witness :
  LoadHadoopConf example_Getenv example_Join example_ReadFile_more
    example_Unmarshal "/etc/hadoop"
  = LoadHadoopConf example_Getenv example_Join example_ReadFile
      example_Unmarshal "/etc/hadoop".
Proof.
  apply (LoadHadoopConf_reads_two_files example_Getenv example_Join
           example_ReadFile example_Unmarshal example_ReadFile_more
           "/etc/hadoop"); reflexivity.
Defined.

Lemma LoadHadoopConf_then_Namenodes_witness :
  defaultFS
    (Namenodes ""
       {| conf_map := LoadHadoopConf example_Getenv example_Join
                        example_ReadFile example_Unmarshal "/etc/hadoop";
          defaultFS := "old" |}).2 = "clusterA"
  ∧ lookup_result
      (LoadHadoopConf example_Getenv example_Join example_ReadFile
         example_Unmarshal "/etc/hadoop")
      "clusterA"
      (Namenodes ""
         {| conf_map := LoadHadoopConf example_Getenv example_Join
                          example_ReadFile example_Unmarshal "/etc/hadoop";
            defaultFS := "old" |}).1.
Proof.
  apply (LoadHadoopConf_then_Namenodes example_Getenv example_Join
           example_ReadFile example_Unmarshal "/etc/hadoop" example_hdfs_site
           (mkPropertyList
              [mkProperty "fs.defaultFS" "hdfs://clusterA";
               mkProperty "dfs.namenode.rpc-address.clusterA.nn1"
                 "host1:8020"])
           []
           [mkProperty "dfs.namenode.rpc-address.clusterA.nn1" "host1:8020"]
           "clusterA" "old").
  - reflexivity.
  - reflexivity.
  - reflexivity.
  - vm_compute. intros H. inversion H as [| ? ? ? H']. inversion H'.
  - discriminate.
Defined.

(** The loaded example, resolved. *)
Example LoadHadoopConf_then_Namenodes_example :
  (Namenodes ""
     (initial_state
        (LoadHadoopConf example_Getenv example_Join example_ReadFile
           example_Unmarshal "/etc/hadoop"))).1
  = (["host1:8020"], None).
Proof. by vm_compute. Qed.
